(** * The rule-based category classifier of [categorize_games.py]

    A shallow embedding of [get_game_categories] and the properties its
    specification states about it.

    Python values are represented as follows.
    - A [str] is a [string]: the UTF-8 bytes of the text.  Every keyword and
      every label of the classifier is ASCII, so substring search, equality
      and the lexical order on the bytes agree with Python's on code points.
    - The local [categories = set()] is a [gset string]; [add], [update] and
      [discard] are union and difference.
    - The function body is straight-line code: a seed, fifteen [if]
      statements over [title_lower], a fallback and [sorted].  Each [if]
      statement is one function from the working set to the working set.
    - The caller [update_games_with_categories] is a function from the loaded
      catalog to the written catalog or the exception raised; its file
      access and its progress lines are not modelled. *)

From Stdlib Require Import Ascii String List Bool.
From stdpp Require Import base decidable list strings sets gmap sorting.

(** ** Strings *)

Module Str.

(** [s.startswith(p)] *)
Fixpoint startswith (p s : string) : bool :=
  match p, s with
  | EmptyString, _ => true
  | String _ _, EmptyString => false
  | String a p', String b s' => if Ascii.eqb a b then startswith p' s' else false
  end.

(** [sub in s]: [sub] occurs in [s] as a contiguous substring. *)
Fixpoint contains (sub s : string) : bool :=
  startswith sub s ||
  match s with
  | EmptyString => false
  | String _ s' => contains sub s'
  end.

(** [any(word in s for word in words)] *)
Definition any_in (words : list string) (s : string) : bool :=
  existsb (fun word => contains word s) words.

(** Lower-casing of one ASCII letter; every other byte is kept. *)
Definition lower_ascii (c : ascii) : ascii :=
  let n := N_of_ascii c in
  if (65 <=? n)%N && (n <=? 90)%N then ascii_of_N (n + 32) else c.

Fixpoint map (f : ascii -> ascii) (s : string) : string :=
  match s with
  | EmptyString => EmptyString
  | String c s' => String (f c) (map f s')
  end.

(** [bool(s)]: a string is true when it is not empty. *)
Definition truthy (s : string) : bool :=
  match s with
  | EmptyString => false
  | String _ _ => true
  end.

(** [s1 < s2], the lexical order by code point. *)
Definition lt (s1 s2 : string) : Prop := String.ltb s1 s2 = true.

(** The text has code points below 128 only. *)
Fixpoint isascii (s : string) : bool :=
  match s with
  | EmptyString => true
  | String c s' => (N_of_ascii c <? 128)%N && isascii s'
  end.

End Str.

(** [str.lower].  Python lower-cases by the Unicode tables; the classifier
    relies on nothing but its value on ASCII text, where it maps [A-Z] to
    [a-z] and keeps every other character. *)
Class Lower := {
  lower : string -> string;
  lower_isascii : forall s, Str.isascii s = true -> lower s = Str.map Str.lower_ascii s
}.

(** Lower-casing the ASCII letters and nothing else: [str.lower] on the
    catalog, whose titles are ASCII. *)
#[export] Instance ascii_Lower : Lower :=
  {| lower := Str.map Str.lower_ascii; lower_isascii := λ _ _, eq_refl |}.

(** ** The working set *)

Abbreviation labels := (gset string).

(** [categories.add(x)] *)
Definition add (categories : labels) (x : string) : labels := categories ∪ {[ x ]}.

(** [categories.update(xs)] *)
Definition update (categories : labels) (xs : list string) : labels :=
  categories ∪ list_to_set xs.

(** [categories.discard(x)] *)
Definition discard (categories : labels) (x : string) : labels := categories ∖ {[ x ]}.

(** [x in categories] *)
Definition mem (x : string) (categories : labels) : bool := bool_decide (x ∈ categories).

(** [sorted(list(categories))]: the elements in ascending lexical order. *)
Definition sorted (categories : labels) : list string :=
  merge_sort String.le (elements categories).

(** ** The rules, in the order of the source *)

(** lines 16-17 *)
Definition seed (current_category : string) (categories : labels) : labels :=
  if Str.truthy current_category then add categories current_category else categories.

Section Rules.

Variable title_lower : string.

Definition is_board_game : bool :=
  Str.any_in ["chess"; "checkers"; "go "; "backgammon"] title_lower.

(** lines 20-21 *)
Definition board_game_rule (categories : labels) : labels :=
  if is_board_game then update categories ["strategy"; "2-player"; "classic"]
  else categories.

Definition is_connect_four : bool :=
  Str.contains "connect four" title_lower || Str.contains "connect-four" title_lower.

(** lines 24-26 *)
Definition connect_four_rule (categories : labels) : labels :=
  if is_connect_four
  then discard (update categories ["puzzle"; "2-player"; "strategy"]) "simulation"
  else categories.

Definition is_tic_tac_toe : bool :=
  Str.contains "tic" title_lower && Str.contains "tac" title_lower
  && Str.contains "toe" title_lower.

(** lines 29-31 *)
Definition tic_tac_toe_rule (categories : labels) : labels :=
  if is_tic_tac_toe
  then discard (update categories ["puzzle"; "2-player"; "classic"]) "simulation"
  else categories.

Definition is_racing : bool :=
  Str.any_in ["racing"; "race"; "circuit"; "speed"; "drift"] title_lower.

(** lines 34-35 *)
Definition racing_rule (categories : labels) : labels :=
  if is_racing then update categories ["racing"; "arcade"] else categories.

Definition is_puzzle : bool :=
  Str.any_in ["puzzle"; "match"; "tetris"; "blocks"; "crystal"; "gem"; "swap"]
    title_lower.

(** lines 38-39 *)
Definition puzzle_rule (categories : labels) : labels :=
  if is_puzzle then add categories "puzzle" else categories.

Definition is_card_game : bool :=
  Str.any_in ["poker"; "cards"; "solitaire"; "blackjack"] title_lower.

(** lines 42-43 *)
Definition card_game_rule (categories : labels) : labels :=
  if is_card_game then update categories ["classic"; "2-player"] else categories.

Definition is_arcade : bool :=
  Str.any_in ["blaster"; "asteroid"; "space"; "shooter"; "invader"; "breakout"; "pong"]
    title_lower.

(** lines 46-47 *)
Definition arcade_rule (categories : labels) : labels :=
  if is_arcade then update categories ["arcade"; "classic"] else categories.

Definition is_tower_defense : bool :=
  Str.any_in ["tower"; "defense"; "defend"; "turret"] title_lower.

(** lines 50-51 *)
Definition tower_defense_rule (categories : labels) : labels :=
  if is_tower_defense then update categories ["defense"; "strategy"] else categories.

Definition is_ai : bool :=
  Str.any_in ["ai "; "algorithm"; "neural"; "matrix"; "nexus"; "quantum"] title_lower.

(** lines 54-59 *)
Definition ai_rule (categories : labels) : labels :=
  if is_ai then
    if mem "ai-exclusive" categories
    then update categories ["ai-exclusive"; "strategy"]
    else add categories "strategy"
  else categories.

Definition is_multiplayer : bool :=
  Str.any_in ["network"; "online"; "multi"; "battle"; "versus"; "pvp"] title_lower.

(** lines 62-65 *)
Definition multiplayer_rule (categories : labels) : labels :=
  if is_multiplayer then
    let categories := add categories "multiplayer" in
    if Str.contains "multi" title_lower then add categories "4-player" else categories
  else categories.

Definition is_head_to_head : bool :=
  Str.any_in ["vs "; "versus"; "battle"; "duel"] title_lower
  && negb (Str.contains "network" title_lower).

(** lines 68-69 *)
Definition head_to_head_rule (categories : labels) : labels :=
  if is_head_to_head then add categories "2-player" else categories.

Definition is_adventure : bool :=
  Str.any_in ["quest"; "adventure"; "exploration"; "journey"] title_lower.

(** lines 72-73 *)
Definition adventure_rule (categories : labels) : labels :=
  if is_adventure then add categories "adventure" else categories.

Definition is_simulation : bool :=
  Str.any_in ["simulator"; "tycoon"; "management"; "builder"] title_lower.

(** lines 76-77 *)
Definition simulation_rule (categories : labels) : labels :=
  if is_simulation then add categories "simulation" else categories.

Definition is_classic : bool :=
  Str.any_in ["classic"; "retro"; "vintage"; "old school"] title_lower.

(** lines 80-81 *)
Definition classic_rule (categories : labels) : labels :=
  if is_classic then add categories "classic" else categories.

Definition is_strictly_two_player : bool :=
  Str.any_in ["chess"; "checkers"; "connect four"; "tic tac toe"] title_lower.

(** lines 84-87 *)
Definition contradiction_rule (categories : labels) : labels :=
  if mem "2-player" categories && mem "multiplayer" categories then
    if is_strictly_two_player then discard categories "multiplayer" else categories
  else categories.

(** The fifteen [if] statements of lines 20-87, first to last. *)
Definition keyword_rules : list (labels -> labels) :=
  [ board_game_rule; connect_four_rule; tic_tac_toe_rule; racing_rule; puzzle_rule;
    card_game_rule; arcade_rule; tower_defense_rule; ai_rule; multiplayer_rule;
    head_to_head_rule; adventure_rule; simulation_rule; classic_rule;
    contradiction_rule ].

End Rules.

(** Running a sequence of statements on the working set. *)
Definition run (rules : list (labels -> labels)) (categories : labels) : labels :=
  fold_left (fun categories rule => rule categories) rules categories.

(** lines 90-91 *)
Definition fallback (categories : labels) : labels :=
  if decide (categories = ∅) then add categories "arcade" else categories.

(** The working set after the seed and the first [n] of the fifteen keyword
    rules: [working_set 0] is the set after line 17, [working_set 15] the
    set when control reaches line 89. *)
Definition working_set `{L : Lower} (n : nat) (title current_category : string) : labels :=
  let title_lower := lower title in
  let categories := ∅ in
  let categories := seed current_category categories in
  run (take n (keyword_rules title_lower)) categories.

Definition get_game_categories `{L : Lower}
    (title current_category genre description : string) : list string :=
  let title_lower := lower title in
  let categories := ∅ in
  let categories := seed current_category categories in
  let categories := run (keyword_rules title_lower) categories in
  let categories := fallback categories in
  sorted categories.

(** Some adding rule of lines 20-81 has its condition true. *)
Definition fires (title_lower : string) : bool :=
  is_board_game title_lower || is_connect_four title_lower || is_tic_tac_toe title_lower
  || is_racing title_lower || is_puzzle title_lower || is_card_game title_lower
  || is_arcade title_lower || is_tower_defense title_lower || is_ai title_lower
  || is_multiplayer title_lower || is_head_to_head title_lower
  || is_adventure title_lower || is_simulation title_lower || is_classic title_lower.

(** The labels the rules write as literals, [ai-exclusive] apart. *)
Definition rule_labels : list string :=
  ["2-player"; "4-player"; "adventure"; "arcade"; "classic"; "defense"; "multiplayer";
   "puzzle"; "racing"; "simulation"; "strategy"].

(** ** The update of the catalog

    [update_games_with_categories] loads the catalog, classifies every game
    and writes the catalog back.  A catalog entry is a dictionary; the values
    the update reads or writes are texts and lists of texts, and entries are
    modelled with these values.  Reading and writing the file and the progress
    lines are left out; an exception ends the run before the file is written,
    so a run that raises leaves the catalog as it was. *)

Inductive value : Type :=
  | Str (s : string)
  | Strs (l : list string).

Inductive exception : Type :=
  | KeyError (key : string)
  | AttributeError
  | TypeError
  | IndexError.

Abbreviation entry := (gmap string value).

(** [game.get(key, default)] *)
Definition get (game : entry) (key : string) (default : value) : value :=
  match game !! key with
  | Some v => v
  | None => default
  end.

(** [genre] and [description] are passed on and never read; a list stands
    there as the empty text. *)
Definition text (v : value) : string :=
  match v with
  | Str s => s
  | Strs _ => ""
  end.

(** The body of the loop, lines 114-127.  A title that is a list has no
    [lower] (line 12).  A category that is a list raises [TypeError]: a
    non-empty one cannot be added to the set (line 17), an empty one does not
    take the format [<12] of the progress line (line 127). *)
Definition update_game `{L : Lower} (game : entry) : exception + entry :=
  let old_category := get game "category" (Str "arcade") in
  match game !! "title" with
  | None => inl (KeyError "title")
  | Some (Strs _) => inl AttributeError
  | Some (Str title) =>
      match old_category with
      | Strs _ => inl TypeError
      | Str old_category =>
          let new_categories :=
            get_game_categories title old_category
              (text (get game "genre" (Str ""))) (text (get game "description" (Str ""))) in
          let game := <["categories" := Strs new_categories]> game in
          match new_categories with
          | [] => inl IndexError
          | primary :: _ => inr (<["category" := Str primary]> game)
          end
      end
  end.

(** The loop of line 113: the games in order, stopping at the first exception. *)
Fixpoint update_each `{L : Lower} (games : list entry) : exception + list entry :=
  match games with
  | [] => inr []
  | game :: games =>
      match update_game game with
      | inl e => inl e
      | inr game =>
          match update_each games with
          | inl e => inl e
          | inr games => inr (game :: games)
          end
      end
  end.

(** The loaded catalog: its [meta] dictionary and its list of [games], each
    present or not. *)
Record catalog : Type := { meta : option entry; games : option (list entry) }.

(** lines 103-107 *)
Definition all_categories : list string :=
  ["2-player"; "4-player"; "ai-exclusive"; "adventure"; "arcade";
   "classic"; "defense"; "multiplayer"; "puzzle"; "racing";
   "simulation"; "strategy"].

(** lines 98-131: the catalog that is written, or the exception raised. *)
Definition update_games_with_categories `{L : Lower} (data : catalog)
    : exception + catalog :=
  match meta data with
  | None => inl (KeyError "meta")
  | Some m =>
      let m := <["categories" := Strs all_categories]> m in
      match games data with
      | None => inl (KeyError "games")
      | Some gs =>
          match update_each gs with
          | inl e => inl e
          | inr gs => inr {| meta := Some m; games := Some gs |}
          end
      end
  end.

(** lines 136-139, on the label lists of the games: one more for [category]. *)
Definition count_category (category_counts : gmap string nat) (category : string)
    : gmap string nat :=
  <[category := default 0 (category_counts !! category) + 1]> category_counts.

Definition category_counts (games : list (list string)) : gmap string nat :=
  fold_left (fun counts categories => fold_left count_category categories counts) games ∅.

(** ** The rules as a table

    What one rule does to the membership of one label: [cond] is the rule's
    condition, [adds] and [removes] the labels it adds and discards, [b]
    whether the label was in the set before. *)

Definition among (x : string) (l : list string) : bool := existsb (String.eqb x) l.

Definition after_rule (x : string) (cond : bool) (adds removes : list string) (b : bool)
    : bool :=
  negb (among x removes && cond) && (among x adds && cond || b).

(** Membership of [x] after the first fourteen rules, from its membership [b]
    after the seed. *)
Definition after_rules (title_lower x : string) (b : bool) : bool :=
  let b := after_rule x (is_board_game title_lower) ["strategy"; "2-player"; "classic"] [] b in
  let b := after_rule x (is_connect_four title_lower)
             ["puzzle"; "2-player"; "strategy"] ["simulation"] b in
  let b := after_rule x (is_tic_tac_toe title_lower)
             ["puzzle"; "2-player"; "classic"] ["simulation"] b in
  let b := after_rule x (is_racing title_lower) ["racing"; "arcade"] [] b in
  let b := after_rule x (is_puzzle title_lower) ["puzzle"] [] b in
  let b := after_rule x (is_card_game title_lower) ["classic"; "2-player"] [] b in
  let b := after_rule x (is_arcade title_lower) ["arcade"; "classic"] [] b in
  let b := after_rule x (is_tower_defense title_lower) ["defense"; "strategy"] [] b in
  let b := after_rule x (is_ai title_lower) ["strategy"] [] b in
  let b := after_rule x (is_multiplayer title_lower) ["multiplayer"] [] b in
  let b := after_rule x (is_multiplayer title_lower && Str.contains "multi" title_lower)
             ["4-player"] [] b in
  let b := after_rule x (is_head_to_head title_lower) ["2-player"] [] b in
  let b := after_rule x (is_adventure title_lower) ["adventure"] [] b in
  let b := after_rule x (is_simulation title_lower) ["simulation"] [] b in
  after_rule x (is_classic title_lower) ["classic"] [] b.

(** The seed outlives the rules: it is not 'simulation' on a Connect Four or
    tic-tac-toe title, nor 'multiplayer' on a strictly two-player title. *)
Definition seed_kept (title_lower current_category : string) : bool :=
  Str.truthy current_category
  && negb (String.eqb current_category "simulation"
           && (is_connect_four title_lower || is_tic_tac_toe title_lower))
  && negb (String.eqb current_category "multiplayer" && is_strictly_two_player title_lower).

(** ** Substring search *)

Lemma startswith_spec p s : Str.startswith p s = true ↔ ∃ post, s = p +:+ post.
Proof.
  revert s. induction p as [|a p IH]; intros [|b s]; simpl.
  - split; [by exists ""|done].
  - split; [by exists (String b s)|done].
  - split; [done|]. by intros [post ?].
  - destruct (Ascii.eqb_spec a b) as [->|Hne].
    + rewrite IH. split; intros [post Hpost]; exists post.
      * by rewrite Hpost.
      * by injection Hpost.
    + split; [done|]. intros [post Hpost]. injection Hpost as Hab _. by symmetry in Hab.
Qed.

(** [Str.contains sub s] holds exactly when [s] is some text, then [sub],
    then some text: Python's [sub in s]. *)
Lemma contains_spec sub s :
  Str.contains sub s = true ↔ ∃ pre post, s = pre +:+ sub +:+ post.
Proof.
  induction s as [|a s IH]; simpl; rewrite orb_true_iff, startswith_spec.
  - split.
    + intros [[post Hpost]|?]; [|done]. by exists "", post.
    + intros ([|??] & post & Hpost); [|done]. left. by exists post.
  - rewrite IH. split.
    + intros [[post Hpost]|(pre & post & Hpost)].
      * by exists "", post.
      * exists (String a pre), post. simpl. by rewrite Hpost.
    + intros ([|b pre] & post & Hpost).
      * left. by exists post.
      * right. exists pre, post. by injection Hpost.
Qed.

Lemma any_in_spec words s :
  Str.any_in words s = true ↔ ∃ word, word ∈ words ∧ Str.contains word s = true.
Proof.
  unfold Str.any_in. rewrite existsb_exists.
  split; intros (word & Hword & Hin); exists word; by rewrite list_elem_of_In in *.
Qed.

(** ** Sets and the sorted sequence *)

Lemma elem_of_add (categories : labels) x y : y ∈ add categories x ↔ y ∈ categories ∨ y = x.
Proof. unfold add. set_solver. Qed.

Lemma elem_of_update (categories : labels) xs y :
  y ∈ update categories xs ↔ y ∈ categories ∨ y ∈ xs.
Proof. unfold update. set_solver. Qed.

Lemma elem_of_discard (categories : labels) x y :
  y ∈ discard categories x ↔ y ∈ categories ∧ y ≠ x.
Proof. unfold discard. set_solver. Qed.

Lemma mem_true x (categories : labels) : mem x categories = true ↔ x ∈ categories.
Proof. unfold mem. apply bool_decide_eq_true. Qed.

Lemma mem_false x (categories : labels) : mem x categories = false ↔ x ∉ categories.
Proof. unfold mem. apply bool_decide_eq_false. Qed.

Lemma sorted_Permutation (categories : labels) : sorted categories ≡ₚ elements categories.
Proof. apply merge_sort_Permutation. Qed.

Lemma elem_of_sorted (categories : labels) x : x ∈ sorted categories ↔ x ∈ categories.
Proof. rewrite sorted_Permutation. apply elem_of_elements. Qed.

Lemma NoDup_sorted (categories : labels) : NoDup (sorted categories).
Proof. rewrite sorted_Permutation. apply NoDup_elements. Qed.

Lemma length_sorted (categories : labels) : length (sorted categories) = size categories.
Proof. unfold sorted. by rewrite merge_sort_Permutation. Qed.

Lemma le_neq_lt s1 s2 : String.le s1 s2 → s1 ≠ s2 → Str.lt s1 s2.
Proof.
  unfold String.le, Str.lt, String.leb, String.ltb. intros Hle Hne.
  destruct (String.compare s1 s2) eqn:Hcmp; [|done..].
  by apply String.compare_eq_iff in Hcmp.
Qed.

(** A duplicate-free list that ascends weakly ascends strictly. *)
Lemma StronglySorted_le_lt (l : list string) :
  StronglySorted String.le l → NoDup l → StronglySorted Str.lt l.
Proof.
  induction 1 as [|x l Hl IH Hx]; intros Hnd; [constructor|].
  apply NoDup_cons in Hnd as [Hnotin Hnd]. constructor; [by apply IH|].
  rewrite Forall_forall in Hx |- *. intros y Hy.
  apply le_neq_lt; [by apply Hx|]. by intros ->.
Qed.

Lemma StronglySorted_sorted (categories : labels) : StronglySorted Str.lt (sorted categories).
Proof.
  apply StronglySorted_le_lt; [|apply NoDup_sorted].
  apply StronglySorted_merge_sort; apply _.
Qed.

(** The ascending arrangement of a set is unique, so every sorting algorithm,
    Python's included, returns [sorted categories]. *)
Lemma sorted_unique (categories : labels) (l : list string) :
  l ≡ₚ elements categories → StronglySorted String.le l → l = sorted categories.
Proof.
  intros Hperm Hsorted. apply (StronglySorted_unique String.le); [done| |].
  - apply StronglySorted_merge_sort; apply _.
  - by rewrite sorted_Permutation.
Qed.

(** ** Running the rules *)

Lemma run_app rules1 rules2 (categories : labels) :
  run (rules1 ++ rules2) categories = run rules2 (run rules1 categories).
Proof. apply fold_left_app. Qed.

(** A property every rule of a sequence preserves holds after the run. *)
Lemma run_preserves (P : labels → Prop) rules categories :
  Forall (λ rule, ∀ c, P c → P (rule c)) rules → P categories → P (run rules categories).
Proof.
  intros Hrules. revert categories.
  induction Hrules as [|rule rules Hrule _ IH]; intros c Hc; [done|].
  apply IH, Hrule, Hc.
Qed.

Lemma working_set_preserves `{L : Lower} (P : labels → Prop) n title current_category :
  Forall (λ rule, ∀ c, P c → P (rule c)) (keyword_rules (lower title)) →
  P (seed current_category ∅) → P (working_set n title current_category).
Proof.
  intros Hrules Hseed. unfold working_set; cbv zeta.
  apply run_preserves; [by apply Forall_take|done].
Qed.

Lemma get_game_categories_working_set `{L : Lower} title current_category genre description :
  get_game_categories title current_category genre description
  = sorted (fallback (working_set 15 title current_category)).
Proof. reflexivity. Qed.

(** One more rule: the working set after rule [n]. *)
Lemma working_set_S `{L : Lower} n title current_category rule :
  keyword_rules (lower title) !! n = Some rule →
  working_set (S n) title current_category = rule (working_set n title current_category).
Proof.
  intros Hrule. unfold working_set; cbv zeta.
  rewrite (take_S_r _ _ _ Hrule), run_app. reflexivity.
Qed.

(** ** What the rules add and remove *)

Ltac unfold_rules :=
  unfold board_game_rule, connect_four_rule, tic_tac_toe_rule, racing_rule, puzzle_rule,
    card_game_rule, arcade_rule, tower_defense_rule, ai_rule, multiplayer_rule,
    head_to_head_rule, adventure_rule, simulation_rule, classic_rule, contradiction_rule,
    fallback, seed.

Ltac rule_cases :=
  unfold_rules; cbv zeta;
  repeat match goal with
    | |- context [if ?b then _ else _] => destruct b eqn:?
    end.

Ltac set_facts :=
  repeat match goal with
    | H : mem _ _ = true |- _ => apply mem_true in H
    | H : mem _ _ = false |- _ => apply mem_false in H
    | H : andb _ _ = true |- _ => apply andb_true_iff in H as [? ?]
    end;
  unfold add, update, discard in *; simpl list_to_set in *.

(** No rule removes a label other than [simulation] and [multiplayer]. *)
Lemma keyword_rules_keep title_lower x :
  x ≠ "simulation" → x ≠ "multiplayer" →
  Forall (λ rule, ∀ c : labels, x ∈ c → x ∈ rule c) (keyword_rules title_lower).
Proof.
  intros Hsim Hmulti.
  repeat apply Forall_cons_2; [..|apply Forall_nil_2];
    intros c Hc; rule_cases; set_facts; set_solver.
Qed.

Lemma fallback_keep (categories : labels) x : x ∈ categories → x ∈ fallback categories.
Proof. rule_cases; set_facts; set_solver. Qed.

(** The rules after the first [n] take the working set to the final one. *)
Lemma working_set_drop `{L : Lower} n title current_category :
  working_set 15 title current_category
  = run (drop n (keyword_rules (lower title))) (working_set n title current_category).
Proof.
  unfold working_set; cbv zeta. rewrite <-run_app, take_drop. reflexivity.
Qed.

(** A label of the working set is in the result when nothing after removes it. *)
Lemma working_set_result `{L : Lower} n title current_category genre description x :
  x ≠ "simulation" → x ≠ "multiplayer" →
  x ∈ working_set n title current_category →
  x ∈ get_game_categories title current_category genre description.
Proof.
  intros Hsim Hmulti Hx.
  rewrite get_game_categories_working_set, elem_of_sorted. apply fallback_keep.
  rewrite (working_set_drop n). revert Hx. apply (run_preserves (λ c, x ∈ c)).
  by apply Forall_drop, keyword_rules_keep.
Qed.

(** The seed survives a rule that can discard it when that rule does not run:
    [simulation] when the title is no Connect Four or tic-tac-toe variant,
    [multiplayer] when the title names no strictly two-player game. *)
Lemma keyword_rules_keep_unless title_lower x :
  (x = "simulation" →
   is_connect_four title_lower = false ∧ is_tic_tac_toe title_lower = false) →
  (x = "multiplayer" → is_strictly_two_player title_lower = false) →
  Forall (λ rule, ∀ c : labels, x ∈ c → x ∈ rule c) (keyword_rules title_lower).
Proof.
  intros Hsim Hmulti.
  assert (x ≠ "simulation" ∨
          is_connect_four title_lower = false ∧ is_tic_tac_toe title_lower = false)
    as Hsim' by (destruct (decide (x = "simulation")); auto).
  assert (x ≠ "multiplayer" ∨ is_strictly_two_player title_lower = false)
    as Hmulti' by (destruct (decide (x = "multiplayer")); auto).
  clear Hsim Hmulti. destruct Hsim' as [?|[? ?]], Hmulti' as [?|?];
    (repeat apply Forall_cons_2; [..|apply Forall_nil_2];
     intros c Hc; rule_cases; set_facts; try congruence; set_solver).
Qed.

Lemma working_set_result_unless `{L : Lower} n title current_category genre description x :
  (x = "simulation" →
   is_connect_four (lower title) = false ∧ is_tic_tac_toe (lower title) = false) →
  (x = "multiplayer" → is_strictly_two_player (lower title) = false) →
  x ∈ working_set n title current_category →
  x ∈ get_game_categories title current_category genre description.
Proof.
  intros Hsim Hmulti Hx.
  rewrite get_game_categories_working_set, elem_of_sorted. apply fallback_keep.
  rewrite (working_set_drop n). revert Hx. apply (run_preserves (λ c, x ∈ c)).
  by apply Forall_drop, keyword_rules_keep_unless.
Qed.

Lemma seed_elem_of current_category :
  current_category ≠ "" → current_category ∈ seed current_category ∅.
Proof. destruct current_category; [done|]. intros _. rule_cases; set_facts; set_solver. Qed.

(** When no adding rule fires and [2-player] was not seeded, the fifteen rules
    leave the working set as it is. *)
Lemma quiet_rules title_lower (categories : labels) :
  fires title_lower = false → "2-player" ∉ categories →
  run (keyword_rules title_lower) categories = categories.
Proof.
  unfold fires. intros Hfires Hmem%mem_false.
  repeat match type of Hfires with
    | orb _ _ = false => apply orb_false_elim in Hfires as [Hfires ?]
    end.
  unfold run, keyword_rules, fold_left.
  (* the rules are opened one at a time, from the first *)
  repeat match goal with
    | Hcond : ?cond = false |- context [?rule title_lower categories] =>
        progress (unfold rule; rewrite Hcond)
    end.
  reflexivity.
Qed.

Lemma fallback_nonempty (categories : labels) : fallback categories ≠ ∅.
Proof. rule_cases; set_facts; set_solver. Qed.

Ltac vocabulary_cases :=
  set_facts; try done;
  let Hx := fresh "Hx" in
  intros Hx; set_unfold in Hx; destruct_and?; destruct_or?; subst; auto; try done;
  right; by apply (bool_decide_unpack _).

(** Every label the rules add is written in [rule_labels], and [ai-exclusive]
    is added only to a set that has it. *)
Lemma keyword_rules_vocabulary title_lower current_category :
  Forall (λ rule, ∀ c : labels,
            (∀ x, x ∈ c → x = current_category ∨ x ∈ rule_labels) →
            ∀ x, x ∈ rule c → x = current_category ∨ x ∈ rule_labels)
    (keyword_rules title_lower).
Proof.
  repeat apply Forall_cons_2; [..|apply Forall_nil_2];
    intros c Hc x; rule_cases; vocabulary_cases.
Qed.

(** The labels of the working set and of the result are the seed and the
    literals of the rules. *)
Lemma working_set_vocabulary `{L : Lower} n title current_category x :
  x ∈ working_set n title current_category → x = current_category ∨ x ∈ rule_labels.
Proof.
  revert x.
  apply (working_set_preserves (λ c, ∀ x, x ∈ c → x = current_category ∨ x ∈ rule_labels)).
  - apply keyword_rules_vocabulary.
  - intros x. rule_cases; vocabulary_cases.
Qed.

Lemma result_vocabulary `{L : Lower} title current_category genre description x :
  x ∈ get_game_categories title current_category genre description →
  x = current_category ∨ x ∈ rule_labels.
Proof.
  rewrite get_game_categories_working_set, elem_of_sorted.
  pose proof (working_set_vocabulary 15 title current_category) as Hws.
  rule_cases; vocabulary_cases.
Qed.

(** Updating with a label the set has adds the other label only. *)
Lemma update_present (categories : labels) x y :
  x ∈ categories → update categories [x; y] = add categories y.
Proof.
  intros Hx. unfold update, add. apply set_eq. intros z. set_unfold.
  intuition (subst; auto).
Qed.

(** Facts about one literal title are computed: [lower] is known on it. *)
Ltac lower_literal :=
  unfold get_game_categories, working_set; cbv zeta;
  rewrite ?lower_isascii by reflexivity.

Ltac compute_labels := lower_literal; apply (bool_decide_unpack _); vm_compute; exact I.

(** ** Scenarios of the specification, run on the model *)

Example lower_network_chess_battle `{L : Lower} :
  lower "Network Chess Battle" = "network chess battle".
Proof. by rewrite lower_isascii. Qed.

Example chess_master `{L : Lower} :
  get_game_categories "Chess Master" "simulation" "" ""
  = ["2-player"; "classic"; "simulation"; "strategy"].
Proof. compute_labels. Qed.

Example tic_tac_toe_arena `{L : Lower} :
  get_game_categories "Tic Tac Toe Arena" "" "" "" = ["2-player"; "classic"; "puzzle"].
Proof. compute_labels. Qed.

Example space_blaster_pong `{L : Lower} :
  get_game_categories "Space Blaster Pong" "" "" "" = ["arcade"; "classic"].
Proof. compute_labels. Qed.

Example untitled_widget `{L : Lower} :
  get_game_categories "Untitled Widget" "" "" "" = ["arcade"].
Proof. compute_labels. Qed.

(** The Connect Four rule discards a seeded 'simulation'; the simulation rule,
    which runs later, adds the label again when the title asks for it. *)
Example connect_four_simulator `{L : Lower} :
  get_game_categories "Connect Four Simulator" "simulation" "" ""
  = ["2-player"; "puzzle"; "simulation"; "strategy"].
Proof. compute_labels. Qed.

(** 'tictactoe' as one word: both '2-player' and 'multiplayer' stay. *)
Example tictactoe_battle `{L : Lower} :
  get_game_categories "TicTacToe Battle" "" "" ""
  = ["2-player"; "classic"; "multiplayer"; "puzzle"].
Proof. compute_labels. Qed.

(** ** The claims *)

(** C1. The result of [get_game_categories] has at least one element for
    every input; when no keyword rule fires and [current_category] is empty,
    the result is exactly [['arcade']]. *)
Theorem get_game_categories_nonempty `{L : Lower} title current_category genre description :
  1 ≤ length (get_game_categories title current_category genre description)
  ∧ (fires (lower title) = false → current_category = "" →
     get_game_categories title current_category genre description = ["arcade"]).
Proof.
  split.
  - rewrite get_game_categories_working_set, length_sorted.
    pose proof (fallback_nonempty (working_set 15 title current_category)) as Hne.
    assert (size (fallback (working_set 15 title current_category)) ≠ 0) as Hsize.
    { rewrite size_non_empty_iff. by intros ?%leibniz_equiv. }
    lia.
  - intros Hfires ->. unfold get_game_categories; cbv zeta.
    rewrite quiet_rules; [|done|set_solver]. reflexivity.
Qed.

Lemma get_game_categories_nonempty_witness :
  fires (lower "Untitled Widget") = false
  ∧ get_game_categories "Untitled Widget" "" "" "" = ["arcade"].
Proof.
  split; [reflexivity|].
  apply (get_game_categories_nonempty "Untitled Widget" "" "" ""); reflexivity.
Defined.

(** C2. The result of [get_game_categories] is strictly ascending in the
    lexical order, and no label occurs in it twice. *)
Theorem get_game_categories_strictly_ascending `{L : Lower}
    title current_category genre description :
  StronglySorted Str.lt (get_game_categories title current_category genre description)
  ∧ NoDup (get_game_categories title current_category genre description).
Proof.
  rewrite get_game_categories_working_set.
  split; [apply StronglySorted_sorted|apply NoDup_sorted].
Qed.

(** C3. For the title "Network Chess Battle" and an empty current category,
    the tenth rule adds 'multiplayer', the contradiction rule removes it
    because '2-player' is in the set and the title contains 'chess', and the
    result is '2-player', 'classic', 'strategy', without 'multiplayer'. *)
Theorem network_chess_battle `{L : Lower} genre description :
  let title := "Network Chess Battle" in
  let result := get_game_categories title "" genre description in
  ("multiplayer" ∉ working_set 9 title "")
  ∧ multiplayer_rule (lower title) (working_set 9 title "")
    = add (working_set 9 title "") "multiplayer"
  ∧ working_set 10 title "" = multiplayer_rule (lower title) (working_set 9 title "")
  ∧ "2-player" ∈ working_set 14 title "" ∧ "multiplayer" ∈ working_set 14 title ""
  ∧ Str.contains "chess" (lower title) = true
  ∧ contradiction_rule (lower title) (working_set 14 title "")
    = discard (working_set 14 title "") "multiplayer"
  ∧ working_set 15 title "" = contradiction_rule (lower title) (working_set 14 title "")
  ∧ ("multiplayer" ∉ result)
  ∧ "2-player" ∈ result ∧ "classic" ∈ result ∧ "strategy" ∈ result
  ∧ result = ["2-player"; "classic"; "strategy"].
Proof.
  cbv zeta. repeat split; compute_labels.
Qed.

(** C4. When the lower-cased title contains 'connect four' or 'connect-four',
    the second rule adds 'puzzle', '2-player' and 'strategy' to the working
    set and removes 'simulation' from it.  For the title
    "Connect Four Challenge" seeded with 'simulation' the result has
    '2-player', 'puzzle' and 'strategy' and does not have 'simulation'. *)
Theorem connect_four_variant `{L : Lower} genre description :
  (∀ title current_category,
     Str.contains "connect four" (lower title) = true
     ∨ Str.contains "connect-four" (lower title) = true →
     let before := working_set 1 title current_category in
     let after := working_set 2 title current_category in
     after = connect_four_rule (lower title) before
     ∧ after = discard (update before ["puzzle"; "2-player"; "strategy"]) "simulation"
     ∧ "puzzle" ∈ after ∧ "2-player" ∈ after ∧ "strategy" ∈ after
     ∧ ("simulation" ∉ after))
  ∧ (let result := get_game_categories "Connect Four Challenge" "simulation"
                     genre description in
     ("simulation" ∉ result)
     ∧ "2-player" ∈ result ∧ "puzzle" ∈ result ∧ "strategy" ∈ result
     ∧ result = ["2-player"; "puzzle"; "strategy"]).
Proof.
  split.
  - intros title current_category Hconnect; cbv zeta.
    assert (is_connect_four (lower title) = true) as Hcond.
    { unfold is_connect_four. apply orb_true_iff.
      destruct Hconnect as [->| ->]; auto. }
    rewrite (working_set_S 1 _ _ (connect_four_rule (lower title))) by reflexivity.
    set (before := working_set 1 title current_category).
    assert (connect_four_rule (lower title) before
            = discard (update before ["puzzle"; "2-player"; "strategy"]) "simulation")
      as Hrule by (unfold connect_four_rule; by rewrite Hcond).
    split; [reflexivity|]. rewrite Hrule. split; [reflexivity|].
    rewrite !elem_of_discard, !elem_of_update, !elem_of_cons.
    repeat split; auto; intros [_ Hne]; by apply Hne.
  - cbv zeta. repeat split; compute_labels.
Qed.

Lemma connect_four_variant_witness :
  let after := working_set 2 "Connect-Four Simulator" "simulation" in
  "puzzle" ∈ after ∧ "2-player" ∈ after ∧ "strategy" ∈ after ∧ ("simulation" ∉ after).
Proof.
  destruct (connect_four_variant "" "") as [Hrule _].
  apply (Hrule "Connect-Four Simulator" "simulation"). right. reflexivity.
Defined.

(** C5. The AI rule adds nothing but 'strategy': its first branch runs only
    on a working set that already has 'ai-exclusive', which no rule inserts,
    so 'ai-exclusive' is in the result exactly when it is the seed. *)
Theorem ai_rule_adds_strategy `{L : Lower} title current_category genre description :
  (∀ c : labels,
     ai_rule (lower title) c = if is_ai (lower title) then add c "strategy" else c)
  ∧ (∀ n, "ai-exclusive" ∈ working_set n title current_category
          ↔ current_category = "ai-exclusive")
  ∧ ("ai-exclusive" ∈ get_game_categories title current_category genre description
     ↔ current_category = "ai-exclusive").
Proof.
  assert ("ai-exclusive" ∉ rule_labels) as Hnew by by apply (bool_decide_unpack _).
  split; [intros c|split; [intros n; split|split]].
  - unfold ai_rule. destruct (is_ai (lower title)); [|done].
    destruct (mem "ai-exclusive" c) eqn:Hmem; [|done].
    apply update_present. by apply mem_true.
  - intros [?|?]%working_set_vocabulary; done.
  - intros ->. apply (working_set_preserves (λ c, "ai-exclusive" ∈ c)).
    + by apply keyword_rules_keep.
    + by apply seed_elem_of.
  - intros [?|?]%result_vocabulary; done.
  - intros ->. apply (working_set_result 0); [done..|].
    by apply seed_elem_of.
Qed.

(** C6. A non-empty [current_category] that no removal rule discards is in
    the result.  The rules remove no label but 'simulation' and 'multiplayer',
    so every non-empty [current_category] other than these two is in the
    result. *)
Theorem seed_inclusion `{L : Lower} title current_category genre description :
  current_category ≠ "" →
  (∀ x, x ≠ "simulation" → x ≠ "multiplayer" →
        Forall (λ rule, ∀ c : labels, x ∈ c → x ∈ rule c) (keyword_rules (lower title))
        ∧ ∀ c : labels, x ∈ c → x ∈ fallback c)
  ∧ ((current_category = "simulation" →
      is_connect_four (lower title) = false ∧ is_tic_tac_toe (lower title) = false) →
     (current_category = "multiplayer" → is_strictly_two_player (lower title) = false) →
     current_category ∈ get_game_categories title current_category genre description)
  ∧ (current_category ≠ "simulation" → current_category ≠ "multiplayer" →
     current_category ∈ get_game_categories title current_category genre description).
Proof.
  intros Hseed%seed_elem_of. split; [|split].
  - intros x Hsim Hmulti. split; [by apply keyword_rules_keep|intros c; apply fallback_keep].
  - intros Hsim Hmulti. by apply (working_set_result_unless 0).
  - intros Hsim Hmulti. by apply (working_set_result 0).
Qed.

Lemma seed_inclusion_witness :
  "simulation" ∈ get_game_categories "Chess Master" "simulation" "" ""
  ∧ "ai-exclusive" ∈ get_game_categories "Chess Master" "ai-exclusive" "" "".
Proof.
  split.
  - destruct (seed_inclusion "Chess Master" "simulation" "" "") as (_ & Hkept & _);
      [discriminate|].
    apply Hkept; [intros _; split; reflexivity|discriminate].
  - destruct (seed_inclusion "Chess Master" "ai-exclusive" "" "") as (_ & _ & Hother);
      [discriminate|].
    apply Hother; discriminate.
Defined.

(** C7. [genre] and [description] do not influence the result: two calls
    with the same title and current category return equal sequences. *)
Theorem genre_description_unused `{L : Lower}
    title current_category genre1 description1 genre2 description2 :
  get_game_categories title current_category genre1 description1
  = get_game_categories title current_category genre2 description2.
Proof. reflexivity. Qed.

(** C8. When the lower-cased title contains one of 'network', 'online',
    'multi', 'battle', 'versus', 'pvp', the tenth rule adds 'multiplayer' to
    the working set, and '4-player' too when it contains 'multi'.  No later
    rule removes '4-player': a title containing 'multi' has '4-player' in its
    result. *)
Theorem multiplayer_indicators `{L : Lower} title current_category genre description :
  let before := working_set 9 title current_category in
  let after := working_set 10 title current_category in
  after = multiplayer_rule (lower title) before
  ∧ (Str.any_in ["network"; "online"; "multi"; "battle"; "versus"; "pvp"] (lower title)
     = true →
     "multiplayer" ∈ after
     ∧ after = if Str.contains "multi" (lower title)
               then add (add before "multiplayer") "4-player"
               else add before "multiplayer")
  ∧ (Str.contains "multi" (lower title) = true →
     "multiplayer" ∈ after ∧ "4-player" ∈ after
     ∧ "4-player" ∈ get_game_categories title current_category genre description).
Proof.
  cbv zeta.
  rewrite (working_set_S 9 _ _ (multiplayer_rule (lower title))) by reflexivity.
  set (before := working_set 9 title current_category).
  split; [reflexivity|]. split.
  - intros Hany. unfold multiplayer_rule, is_multiplayer. rewrite Hany.
    split; [|reflexivity].
    destruct (Str.contains "multi" (lower title)); rewrite !elem_of_add; auto.
  - intros Hmulti.
    assert (is_multiplayer (lower title) = true) as Hany.
    { unfold is_multiplayer, Str.any_in, existsb. rewrite Hmulti.
      by rewrite !orb_true_r. }
    assert (multiplayer_rule (lower title) before
            = add (add before "multiplayer") "4-player") as Hrule.
    { unfold multiplayer_rule. by rewrite Hany, Hmulti. }
    rewrite Hrule, !elem_of_add. repeat split; auto.
    apply (working_set_result 10); [done..|].
    rewrite (working_set_S 9 _ _ (multiplayer_rule (lower title))) by reflexivity.
    fold before. rewrite Hrule, !elem_of_add. auto.
Qed.

Lemma multiplayer_indicators_witness :
  "multiplayer" ∈ working_set 10 "Online Arena" ""
  ∧ "4-player" ∈ get_game_categories "MULTI Kart" "" "" "".
Proof.
  split.
  - destruct (multiplayer_indicators "Online Arena" "" "" "") as (_ & Hany & _).
    apply Hany. reflexivity.
  - destruct (multiplayer_indicators "MULTI Kart" "" "" "") as (_ & _ & Hmulti).
    apply Hmulti. reflexivity.
Defined.

(** C9. Every label of the result is [current_category] or one of the eleven
    labels '2-player', '4-player', 'adventure', 'arcade', 'classic', 'defense',
    'multiplayer', 'puzzle', 'racing', 'simulation', 'strategy'. *)
Theorem get_game_categories_vocabulary `{L : Lower} title current_category genre description :
  Forall (λ label, label = current_category ∨ label ∈ rule_labels)
    (get_game_categories title current_category genre description).
Proof.
  apply Forall_forall. intros x. apply result_vocabulary.
Qed.

(** C10. The tic-tac-toe rule looks for 'tic', 'tac' and 'toe' apart, the
    contradiction rule for the phrase 'tic tac toe'.  A title that contains
    the three and a multiplayer keyword, but none of 'chess', 'checkers',
    'connect four', 'tic tac toe', has both '2-player' and 'multiplayer' in
    its result. *)
Theorem tic_tac_toe_keeps_multiplayer `{L : Lower} title current_category genre description :
  Str.contains "tic" (lower title) = true →
  Str.contains "tac" (lower title) = true →
  Str.contains "toe" (lower title) = true →
  Str.any_in ["network"; "online"; "multi"; "battle"; "versus"; "pvp"] (lower title)
  = true →
  Str.any_in ["chess"; "checkers"; "connect four"; "tic tac toe"] (lower title) = false →
  "2-player" ∈ get_game_categories title current_category genre description
  ∧ "multiplayer" ∈ get_game_categories title current_category genre description.
Proof.
  intros Htic Htac Htoe Hmulti Hstrict. split.
  - apply (working_set_result 3); [done..|].
    rewrite (working_set_S 2 _ _ (tic_tac_toe_rule (lower title))) by reflexivity.
    unfold tic_tac_toe_rule, is_tic_tac_toe. rewrite Htic, Htac, Htoe; cbn [andb].
    rewrite elem_of_discard, elem_of_update, !elem_of_cons. auto.
  - apply (working_set_result_unless 10); [done|done|].
    rewrite (working_set_S 9 _ _ (multiplayer_rule (lower title))) by reflexivity.
    unfold multiplayer_rule, is_multiplayer. rewrite Hmulti.
    destruct (Str.contains "multi" (lower title)); rewrite !elem_of_add; auto.
Qed.

Lemma tic_tac_toe_keeps_multiplayer_witness :
  "2-player" ∈ get_game_categories "TicTacToe Battle" "" "" ""
  ∧ "multiplayer" ∈ get_game_categories "TicTacToe Battle" "" "" "".
Proof.
  apply (tic_tac_toe_keeps_multiplayer "TicTacToe Battle" "" "" ""); reflexivity.
Defined.

(** ** The rules as a table: agreement with the code *)

Lemma among_true x l : among x l = true ↔ x ∈ l.
Proof.
  unfold among. rewrite existsb_exists. split.
  - intros (y & Hy & ->%String.eqb_eq). by apply list_elem_of_In.
  - intros Hx. exists x. split; [by apply list_elem_of_In|apply String.eqb_refl].
Qed.

Lemma mem_eq x (c : labels) (b : bool) : (x ∈ c ↔ b = true) → mem x c = b.
Proof.
  intros Hiff. destruct b.
  - by apply mem_true, Hiff.
  - apply mem_false. intros Hx%Hiff. done.
Qed.

Lemma elem_of_list_to_set_among x l : x ∈ (list_to_set l : labels) ↔ among x l = true.
Proof. by rewrite elem_of_list_to_set, among_true. Qed.

Lemma mem_update_if (cond : bool) (c : labels) l x :
  mem x (if cond then update c l else c) = after_rule x cond l [] (mem x c).
Proof.
  apply mem_eq. unfold after_rule; cbn.
  destruct cond; [rewrite elem_of_update|]; rewrite <-?among_true, <-mem_true;
    destruct (among x l), (mem x c); cbn; intuition congruence.
Qed.

Lemma mem_add_if (cond : bool) (c : labels) y x :
  mem x (if cond then add c y else c) = after_rule x cond [y] [] (mem x c).
Proof.
  rewrite <-mem_update_if. f_equal. destruct cond; [|done].
  unfold add, update. cbn. by rewrite (right_id_L ∅ (∪)).
Qed.

Lemma mem_update_discard_if (cond : bool) (c : labels) l y x :
  mem x (if cond then discard (update c l) y else c) = after_rule x cond l [y] (mem x c).
Proof.
  apply mem_eq. unfold after_rule, among at 1; cbn.
  destruct cond; [rewrite elem_of_discard, elem_of_update|];
    rewrite <-?among_true, <-mem_true; destruct (String.eqb_spec x y);
    destruct (among x l), (mem x c); cbn; intuition congruence.
Qed.

Lemma ai_rule_strategy title_lower (c : labels) :
  ai_rule title_lower c = if is_ai title_lower then add c "strategy" else c.
Proof.
  unfold ai_rule. destruct (is_ai title_lower); [|done].
  destruct (mem "ai-exclusive" c) eqn:Hmem; [|done].
  apply update_present. by apply mem_true.
Qed.

(** The first fourteen rules do to every label what the table says. *)
Lemma mem_after_rules title_lower (c : labels) x :
  mem x (run (take 14 (keyword_rules title_lower)) c) = after_rules title_lower x (mem x c).
Proof.
  unfold run, keyword_rules, take, fold_left, after_rules; cbv zeta.
  unfold classic_rule. rewrite mem_add_if. f_equal.
  unfold simulation_rule. rewrite mem_add_if. f_equal.
  unfold adventure_rule. rewrite mem_add_if. f_equal.
  unfold head_to_head_rule. rewrite mem_add_if. f_equal.
  assert (∀ c' : labels,
            multiplayer_rule title_lower c'
            = (if is_multiplayer title_lower && Str.contains "multi" title_lower
               then add (if is_multiplayer title_lower then add c' "multiplayer" else c')
                      "4-player"
               else if is_multiplayer title_lower then add c' "multiplayer" else c'))
    as -> by (intros c'; unfold multiplayer_rule;
              by destruct (is_multiplayer title_lower), (Str.contains "multi" title_lower)).
  rewrite mem_add_if. f_equal. rewrite mem_add_if. f_equal.
  rewrite ai_rule_strategy, mem_add_if. f_equal.
  unfold tower_defense_rule. rewrite mem_update_if. f_equal.
  unfold arcade_rule. rewrite mem_update_if. f_equal.
  unfold card_game_rule. rewrite mem_update_if. f_equal.
  unfold puzzle_rule. rewrite mem_add_if. f_equal.
  unfold racing_rule. rewrite mem_update_if. f_equal.
  unfold tic_tac_toe_rule. rewrite mem_update_discard_if. f_equal.
  unfold connect_four_rule. rewrite mem_update_discard_if. f_equal.
  unfold board_game_rule. by rewrite mem_update_if.
Qed.

Lemma mem_contradiction_rule title_lower (c : labels) x :
  mem x (contradiction_rule title_lower c)
  = negb (String.eqb x "multiplayer"
          && (mem "2-player" c && mem "multiplayer" c && is_strictly_two_player title_lower))
    && mem x c.
Proof.
  apply mem_eq. unfold contradiction_rule.
  destruct (mem "2-player" c), (mem "multiplayer" c), (is_strictly_two_player title_lower);
    cbn; rewrite ?elem_of_discard, ?andb_false_r, <-?mem_true;
    destruct (String.eqb_spec x "multiplayer"), (mem x c); cbn; intuition congruence.
Qed.

Lemma run_keyword_rules title_lower (c : labels) :
  run (keyword_rules title_lower) c
  = contradiction_rule title_lower (run (take 14 (keyword_rules title_lower)) c).
Proof. reflexivity. Qed.

Ltac table_label :=
  unfold after_rules, after_rule;
  cbn [among existsb String.eqb Ascii.eqb Bool.eqb andb orb negb].

Lemma mem_seed x current_category :
  mem x (seed current_category ∅) = String.eqb x current_category && Str.truthy current_category.
Proof.
  apply mem_eq. unfold seed. rewrite andb_true_iff, String.eqb_eq.
  destruct current_category as [|a s]; cbn.
  - split; [set_solver|]. by intros [_ ?].
  - rewrite elem_of_add. split; [intros [?%not_elem_of_empty|?]; done|]. by intros [-> _]; right.
Qed.

Lemma mem_seed_label x current_category :
  x ≠ "" → mem x (seed current_category ∅) = String.eqb current_category x.
Proof.
  intros Hx. rewrite mem_seed, (String.eqb_sym x).
  destruct (String.eqb_spec current_category x) as [->|?]; [|done].
  by destruct x.
Qed.

(** Membership of a label when control reaches line 89. *)
Lemma mem_working_set_15 `{L : Lower} title current_category x :
  let before := seed current_category ∅ in
  mem x (working_set 15 title current_category)
  = negb (String.eqb x "multiplayer"
          && (after_rules (lower title) "2-player" (mem "2-player" before)
              && after_rules (lower title) "multiplayer" (mem "multiplayer" before)
              && is_strictly_two_player (lower title)))
    && after_rules (lower title) x (mem x before).
Proof.
  cbv zeta. unfold working_set; cbv zeta.
  change (take 15 (keyword_rules (lower title))) with (keyword_rules (lower title)).
  by rewrite run_keyword_rules, mem_contradiction_rule, !mem_after_rules.
Qed.

Lemma elem_of_fallback (c : labels) x :
  x ∈ fallback c ↔ x ∈ c ∨ (x = "arcade" ∧ c = ∅).
Proof.
  unfold fallback. destruct (decide (c = ∅)) as [->|Hne].
  - rewrite elem_of_add. split; [intros [?|?]; auto|]. intros [?|[? _]]; auto.
  - split; [auto|]. by intros [?|[_ ?]].
Qed.

Lemma elem_of_result `{L : Lower} title current_category genre description x :
  x ∈ get_game_categories title current_category genre description
  ↔ mem x (working_set 15 title current_category) = true
    ∨ (x = "arcade" ∧ working_set 15 title current_category = ∅).
Proof.
  by rewrite get_game_categories_working_set, elem_of_sorted, elem_of_fallback, mem_true.
Qed.

(** A label other than 'arcade' is in the result when it is in the final
    working set. *)
Lemma elem_of_result_mem `{L : Lower} title current_category genre description x :
  x ≠ "arcade" →
  x ∈ get_game_categories title current_category genre description
  ↔ mem x (working_set 15 title current_category) = true.
Proof. rewrite elem_of_result. intros Hne. split; [by intros [?|[? _]]|auto]. Qed.

Ltac bool_prop :=
  repeat first
    [ rewrite andb_true_iff | rewrite orb_true_iff | rewrite negb_true_iff
    | rewrite andb_false_iff | rewrite orb_false_iff | rewrite negb_false_iff
    | rewrite String.eqb_eq | rewrite String.eqb_neq ].

Ltac label_iff :=
  rewrite elem_of_result_mem by done;
  rewrite mem_working_set_15; table_label; rewrite ?mem_seed_label by done; bool_prop.

(** ** Which titles and seeds give which label *)

(** X1. '2-player' is in the result exactly when it is the seed or one of
    the board-game, Connect Four, tic-tac-toe, card-game and head-to-head
    rules fires. *)
Theorem two_player_iff `{L : Lower} title current_category genre description :
  "2-player" ∈ get_game_categories title current_category genre description
  ↔ current_category = "2-player"
    ∨ is_board_game (lower title) = true ∨ is_connect_four (lower title) = true
    ∨ is_tic_tac_toe (lower title) = true ∨ is_card_game (lower title) = true
    ∨ is_head_to_head (lower title) = true.
Proof.
  label_iff. tauto.
Qed.

Lemma append_assoc (s1 s2 s3 : string) : (s1 +:+ s2) +:+ s3 = s1 +:+ s2 +:+ s3.
Proof.
  induction s1 as [|c s1 IH]; [reflexivity|].
  change (String c ((s1 +:+ s2) +:+ s3) = String c (s1 +:+ s2 +:+ s3)). by f_equal.
Qed.

Lemma contains_trans a b s :
  Str.contains a b = true → Str.contains b s = true → Str.contains a s = true.
Proof.
  rewrite !contains_spec. intros (pre1 & post1 & ->) (pre2 & post2 & ->).
  exists (pre2 +:+ pre1), (post1 +:+ post2). by rewrite !append_assoc.
Qed.

(** The four phrases of the contradiction rule are titles of the board-game,
    Connect Four and tic-tac-toe rules. *)
Lemma strictly_two_player_cases title_lower :
  is_strictly_two_player title_lower = true →
  is_board_game title_lower = true ∨ is_connect_four title_lower = true
  ∨ is_tic_tac_toe title_lower = true.
Proof.
  unfold is_strictly_two_player, is_board_game, is_connect_four, is_tic_tac_toe.
  unfold Str.any_in, existsb. rewrite !orb_true_iff, !andb_true_iff.
  intros [?|[?|[?|[Hphrase|?]]]]; [auto..| |done].
  right; right.
  repeat split; (eapply contains_trans; [|exact Hphrase]); reflexivity.
Qed.

Lemma contains_multi_multiplayer title_lower :
  Str.contains "multi" title_lower = true → is_multiplayer title_lower = true.
Proof.
  intros Hmulti. unfold is_multiplayer, Str.any_in, existsb.
  rewrite Hmulti. by rewrite !orb_true_r.
Qed.

(** X2. 'multiplayer' is in the result exactly when it is the seed or the
    multiplayer rule fires, and the title has none of 'chess', 'checkers',
    'connect four', 'tic tac toe'. *)
Theorem multiplayer_iff `{L : Lower} title current_category genre description :
  "multiplayer" ∈ get_game_categories title current_category genre description
  ↔ (current_category = "multiplayer" ∨ is_multiplayer (lower title) = true)
    ∧ is_strictly_two_player (lower title) = false.
Proof.
  rewrite elem_of_result_mem by done.
  rewrite mem_working_set_15; table_label; rewrite !mem_seed_label by done.
  destruct (is_strictly_two_player (lower title)) eqn:Hstrict.
  - apply strictly_two_player_cases in Hstrict.
    assert (is_head_to_head (lower title) || (is_card_game (lower title)
              || (is_tic_tac_toe (lower title) || (is_connect_four (lower title)
              || (is_board_game (lower title)
              || String.eqb current_category "2-player")))) = true) as ->.
    { destruct Hstrict as [-> | [-> | ->]]; by rewrite ?orb_true_r. }
    cbn. rewrite andb_true_r, andb_negb_l. by split; [|intros [_ ?]].
  - rewrite andb_false_r; cbn. bool_prop. tauto.
Qed.

(** X3. 'simulation' is in the result exactly when the simulation rule fires
    or it is the seed of a title that is no Connect Four and no tic-tac-toe
    variant. *)
Theorem simulation_iff `{L : Lower} title current_category genre description :
  "simulation" ∈ get_game_categories title current_category genre description
  ↔ is_simulation (lower title) = true
    ∨ (current_category = "simulation" ∧ is_connect_four (lower title) = false
       ∧ is_tic_tac_toe (lower title) = false).
Proof. label_iff. tauto. Qed.

(** X4. 'strategy', 'classic' and 'puzzle' are in the result exactly when
    seeded or when one of the rules that add them fires. *)
Theorem strategy_classic_puzzle_iff `{L : Lower} title current_category genre description :
  let result := get_game_categories title current_category genre description in
  ("strategy" ∈ result
   ↔ current_category = "strategy"
     ∨ is_board_game (lower title) = true ∨ is_connect_four (lower title) = true
     ∨ is_tower_defense (lower title) = true ∨ is_ai (lower title) = true)
  ∧ ("classic" ∈ result
     ↔ current_category = "classic"
       ∨ is_board_game (lower title) = true ∨ is_tic_tac_toe (lower title) = true
       ∨ is_card_game (lower title) = true ∨ is_arcade (lower title) = true
       ∨ is_classic (lower title) = true)
  ∧ ("puzzle" ∈ result
     ↔ current_category = "puzzle"
       ∨ is_connect_four (lower title) = true ∨ is_tic_tac_toe (lower title) = true
       ∨ is_puzzle (lower title) = true).
Proof. cbv zeta. split; [|split]; label_iff; tauto. Qed.

(** X5. 'adventure', 'racing', 'defense' and '4-player' each come from the
    seed or from one rule: '4-player' from a title containing 'multi'. *)
Theorem single_rule_labels_iff `{L : Lower} title current_category genre description :
  let result := get_game_categories title current_category genre description in
  ("adventure" ∈ result
   ↔ current_category = "adventure" ∨ is_adventure (lower title) = true)
  ∧ ("racing" ∈ result ↔ current_category = "racing" ∨ is_racing (lower title) = true)
  ∧ ("defense" ∈ result
     ↔ current_category = "defense" ∨ is_tower_defense (lower title) = true)
  ∧ ("4-player" ∈ result
     ↔ current_category = "4-player" ∨ Str.contains "multi" (lower title) = true).
Proof.
  pose proof (contains_multi_multiplayer (lower title)) as Hmulti.
  cbv zeta. split; [|split; [|split]]; label_iff; tauto.
Qed.

(** When no adding rule fires the rules leave every seed as it is. *)
Lemma quiet_rules_seed title_lower current_category :
  fires title_lower = false →
  run (keyword_rules title_lower) (seed current_category ∅) = seed current_category ∅.
Proof.
  intros Hfires. destruct (decide (current_category = "2-player")) as [->|Hne].
  - rewrite run_keyword_rules.
    unfold fires in Hfires.
    repeat match type of Hfires with
      | orb _ _ = false => apply orb_false_elim in Hfires as [Hfires ?]
      end.
    unfold run, keyword_rules, take, fold_left.
    repeat match goal with
      | Hcond : ?cond = false |- context [?rule title_lower (seed "2-player" ∅)] =>
          progress (unfold rule; rewrite Hcond)
      end.
    unfold contradiction_rule.
    by assert (mem "multiplayer" (seed "2-player" ∅) = false) as -> by by apply mem_false.
  - apply quiet_rules; [done|]. apply mem_false. rewrite mem_seed, (String.eqb_sym "2-player").
    by apply String.eqb_neq in Hne as ->.
Qed.

(** The working set at line 89 is empty only for an empty seed and a title
    on which no adding rule fires. *)
Lemma working_set_empty_iff `{L : Lower} title current_category :
  working_set 15 title current_category = ∅
  ↔ current_category = "" ∧ fires (lower title) = false.
Proof.
  split.
  - intros Hempty.
    assert (∀ x, mem x (working_set 15 title current_category) = false) as Hmem.
    { intros x. apply mem_false. rewrite Hempty. apply not_elem_of_empty. }
    pose proof (Hmem "strategy") as Hstrategy. pose proof (Hmem "classic") as Hclassic.
    pose proof (Hmem "puzzle") as Hpuzzle. pose proof (Hmem "racing") as Hracing.
    pose proof (Hmem "adventure") as Hadventure. pose proof (Hmem "simulation") as Hsim.
    pose proof (Hmem "2-player") as Htwo. pose proof (Hmem "multiplayer") as Hmulti.
    rewrite mem_working_set_15 in Hstrategy, Hclassic, Hpuzzle, Hracing, Hadventure,
      Hsim, Htwo, Hmulti.
    revert Hstrategy Hclassic Hpuzzle Hracing Hadventure Hsim Htwo Hmulti.
    table_label. rewrite !mem_seed_label by done.
    intros Hstrategy Hclassic Hpuzzle Hracing Hadventure Hsim Htwo Hmulti.
    rewrite Htwo in Hmulti; cbn [andb negb] in Hmulti.
    repeat match goal with
      | H : orb _ _ = false |- _ => apply orb_false_elim in H as [? ?]
      end.
    assert (fires (lower title) = false) as Hfires.
    { unfold fires.
      repeat match goal with H : ?cond = false |- _ => rewrite H; clear H end. done. }
    split; [|done]. destruct (decide (current_category = "")) as [|Hne]; [done|].
    apply seed_elem_of in Hne. revert Hne.
    rewrite <-(quiet_rules_seed (lower title)) by done.
    change (current_category ∈ working_set 15 title current_category → current_category = "").
    by rewrite Hempty.
  - intros [-> Hfires]. unfold working_set; cbv zeta.
    change (take 15 (keyword_rules (lower title))) with (keyword_rules (lower title)).
    by rewrite quiet_rules_seed.
Qed.

(** X6. 'arcade' is in the result exactly when it is the seed, when the
    racing or the arcade rule fires, or as the fallback: the seed is empty and
    no adding rule fires. *)
Theorem arcade_iff `{L : Lower} title current_category genre description :
  "arcade" ∈ get_game_categories title current_category genre description
  ↔ current_category = "arcade" ∨ is_racing (lower title) = true
    ∨ is_arcade (lower title) = true
    ∨ (current_category = "" ∧ fires (lower title) = false).
Proof.
  rewrite elem_of_result, working_set_empty_iff, mem_working_set_15.
  table_label. rewrite !mem_seed_label by done. bool_prop. tauto.
Qed.

(** X7. On a title on which no adding rule fires, a non-empty seed is
    returned alone. *)
Theorem quiet_title_keeps_seed `{L : Lower} title current_category genre description :
  fires (lower title) = false → current_category ≠ "" →
  get_game_categories title current_category genre description = [current_category].
Proof.
  intros Hfires Hne. unfold get_game_categories; cbv zeta.
  rewrite quiet_rules_seed by done.
  destruct current_category as [|a s]; [done|]. unfold seed; cbn [Str.truthy].
  unfold fallback, add. rewrite (left_id_L ∅ (∪)).
  destruct (decide ({[String a s]} = (∅ : labels))) as [Hempty|_]; [set_solver|].
  unfold sorted. by rewrite elements_singleton.
Qed.

Lemma quiet_title_keeps_seed_witness :
  get_game_categories "Untitled Widget" "rhythm" "" "" = ["rhythm"].
Proof. by apply (quiet_title_keeps_seed "Untitled Widget" "rhythm" "" ""). Defined.

(** The empty text is never a label. *)
Lemma empty_not_in_result `{L : Lower} title current_category genre description :
  "" ∉ get_game_categories title current_category genre description.
Proof.
  rewrite elem_of_result, mem_working_set_15. table_label.
  rewrite mem_seed. destruct current_category; cbn; rewrite ?andb_false_r; by intros [?|[? _]].
Qed.

(** X8. A label that no rule writes is in the result exactly when it is the
    non-empty seed. *)
Theorem other_label_iff `{L : Lower} title current_category genre description x :
  x ∉ rule_labels →
  x ∈ get_game_categories title current_category genre description
  ↔ x = current_category ∧ current_category ≠ "".
Proof.
  intros Hother. split.
  - intros Hx. destruct (result_vocabulary _ _ _ _ _ Hx) as [->|?]; [|done].
    split; [done|]. intros ->. by apply empty_not_in_result in Hx.
  - intros [-> Hne]. apply (working_set_result 0).
    + intros ->. apply Hother. by apply (bool_decide_unpack _).
    + intros ->. apply Hother. by apply (bool_decide_unpack _).
    + by apply seed_elem_of.
Qed.

Lemma other_label_iff_witness :
  "rhythm" ∈ get_game_categories "Chess Master" "rhythm" "" "".
Proof.
  apply (other_label_iff "Chess Master" "rhythm" "" "" "rhythm").
  - by apply (bool_decide_unpack _).
  - done.
Defined.

(** ** The seed and the title *)

Lemma after_rule_or x cond adds removes p q :
  after_rule x cond adds removes (p || q)
  = after_rule x cond adds removes p || negb (among x removes && cond) && q.
Proof.
  unfold after_rule.
  by destruct (among x removes), (among x adds), cond, p, q.
Qed.

(** Through the first fourteen rules a label of the seed is lost only as
    'simulation' on a Connect Four or tic-tac-toe title. *)
Lemma after_rules_seed title_lower x b :
  after_rules title_lower x b
  = after_rules title_lower x false
    || negb (String.eqb x "simulation"
             && (is_connect_four title_lower || is_tic_tac_toe title_lower)) && b.
Proof.
  unfold after_rules; cbv zeta.
  change b with (false || b) at 1. rewrite !after_rule_or. f_equal.
  cbn [among existsb andb orb negb]. rewrite !orb_false_r.
  by destruct (String.eqb x "simulation"), (is_connect_four title_lower),
    (is_tic_tac_toe title_lower), b.
Qed.

Lemma after_rules_two_player_strict title_lower b :
  is_strictly_two_player title_lower = true → after_rules title_lower "2-player" b = true.
Proof.
  intros Hstrict%strictly_two_player_cases. table_label.
  destruct Hstrict as [-> | [-> | ->]]; by rewrite ?orb_true_r.
Qed.

Ltac bool_literals := cbn [Str.truthy andb orb negb].

Ltac eval_literals :=
  repeat match goal with
    | |- context [String.eqb ?a ?b] =>
        let v := eval vm_compute in (String.eqb a b) in
        match v with
        | true => change (String.eqb a b) with true
        | false => change (String.eqb a b) with false
        end
    end.

Lemma mem_working_set_seed `{L : Lower} title current_category x :
  mem x (working_set 15 title current_category)
  = mem x (working_set 15 title "")
    || String.eqb x current_category && seed_kept (lower title) current_category.
Proof.
  rewrite !mem_working_set_15; cbv zeta. unfold seed_kept.
  rewrite (after_rules_seed _ x (mem x (seed current_category ∅))).
  rewrite (after_rules_seed _ x (mem x (seed "" ∅))).
  rewrite (mem_seed x). rewrite (mem_seed x ""). bool_literals.
  rewrite !andb_false_r, !orb_false_r.
  destruct (is_strictly_two_player (lower title)) eqn:Hstrict.
  - rewrite !after_rules_two_player_strict by done.
    destruct (String.eqb_spec x "multiplayer") as [->|Hmp]; bool_literals.
    + rewrite (after_rules_seed _ _ (mem "multiplayer" (seed current_category ∅))).
      rewrite (after_rules_seed _ _ (mem "multiplayer" (seed "" ∅))).
      rewrite !mem_seed_label by done.
      rewrite (String.eqb_sym "multiplayer" current_category).
      eval_literals; bool_literals.
      generalize (after_rules (lower title) "multiplayer" false). intros A.
      by destruct A, (String.eqb current_category "multiplayer"),
        (Str.truthy current_category), (String.eqb current_category "simulation"),
        (is_connect_four (lower title)), (is_tic_tac_toe (lower title)).
    + f_equal. destruct (String.eqb_spec x current_category) as [<-|?];
        [|by rewrite andb_false_r].
      apply String.eqb_neq in Hmp as ->.
      by destruct (Str.truthy x), (String.eqb x "simulation"),
        (is_connect_four (lower title)), (is_tic_tac_toe (lower title)).
  - rewrite !andb_false_r; bool_literals.
    f_equal. destruct (String.eqb_spec x current_category) as [<-|?];
      [|by rewrite andb_false_r].
    by destruct (Str.truthy x), (String.eqb x "simulation"),
      (is_connect_four (lower title)), (is_tic_tac_toe (lower title)).
Qed.

Lemma working_set_seed_iff `{L : Lower} title current_category x :
  x ∈ working_set 15 title current_category
  ↔ x ∈ working_set 15 title ""
    ∨ (x = current_category ∧ seed_kept (lower title) current_category = true).
Proof.
  rewrite <-!mem_true, mem_working_set_seed. bool_prop. tauto.
Qed.

(** X9. The labels the rules derive from the title do not depend on the
    seed: the working set of a seeded run is that of the unseeded run,
    together with the seed when it is kept. *)
Theorem seed_decomposition `{L : Lower} title current_category x :
  x ∈ working_set 15 title current_category
  ↔ x ∈ working_set 15 title ""
    ∨ (x = current_category ∧ seed_kept (lower title) current_category = true).
Proof. apply working_set_seed_iff. Qed.

(** ** Classifying again *)

Lemma result_not_nil `{L : Lower} title current_category genre description :
  get_game_categories title current_category genre description ≠ [].
Proof.
  rewrite get_game_categories_working_set. intros Hnil%(f_equal length).
  rewrite length_sorted in Hnil. apply size_empty_inv, leibniz_equiv in Hnil.
  by apply fallback_nonempty in Hnil.
Qed.

(** The first label of the result is in the result, below every other. *)
Lemma primary_least `{L : Lower} title current_category genre description :
  let result := get_game_categories title current_category genre description in
  hd "" result ∈ result ∧ ∀ x, x ∈ result → String.le (hd "" result) x.
Proof.
  cbv zeta.
  pose proof (result_not_nil title current_category genre description) as Hnil.
  pose proof (StronglySorted_merge_sort String.le
                (elements (fallback (working_set 15 title current_category)))) as Hsorted.
  fold (sorted (fallback (working_set 15 title current_category))) in Hsorted.
  rewrite <-get_game_categories_working_set with (genre := genre)
    (description := description) in Hsorted.
  destruct (get_game_categories title current_category genre description)
    as [|p l]; [done|]. cbn. split; [by left|].
  intros x [->|Hx]%elem_of_cons; [done|].
  apply StronglySorted_inv in Hsorted as [_ Hall]. by eapply Forall_forall in Hall.
Qed.

Lemma result_set_eq `{L : Lower} title seed1 seed2 genre1 description1 genre2 description2 :
  (∀ x, x ∈ get_game_categories title seed1 genre1 description1
        ↔ x ∈ get_game_categories title seed2 genre2 description2) →
  get_game_categories title seed1 genre1 description1
  = get_game_categories title seed2 genre2 description2.
Proof.
  rewrite !get_game_categories_working_set. intros Hiff. f_equal.
  apply set_eq. intros x. by rewrite <-!elem_of_sorted.
Qed.

Lemma result_again_subset `{L : Lower}
    title current_category genre description label genre' description' :
  label ∈ get_game_categories title current_category genre description →
  get_game_categories title label genre' description'
  ⊆ get_game_categories title current_category genre description.
Proof.
  intros Hlabel x. rewrite (elem_of_result title label).
  intros [Hx|[_ Hempty]].
  - apply mem_true, working_set_seed_iff in Hx as [Hx|[-> _]]; [|done].
    apply elem_of_result. left. apply mem_true, working_set_seed_iff. by left.
  - apply working_set_empty_iff in Hempty as [-> _].
    by apply empty_not_in_result in Hlabel.
Qed.

(** X10. Classifying again with any label of the result as the seed returns
    labels of that result only. *)
Theorem classify_again_subset `{L : Lower}
    title current_category genre description label genre' description' :
  label ∈ get_game_categories title current_category genre description →
  get_game_categories title label genre' description'
  ⊆ get_game_categories title current_category genre description.
Proof. apply result_again_subset. Qed.

Lemma classify_again_subset_witness :
  get_game_categories "Chess Master" "2-player" "" ""
  ⊆ get_game_categories "Chess Master" "rhythm" "" "".
Proof.
  apply (classify_again_subset "Chess Master" "rhythm" "" "" "2-player" "" "").
  apply (bool_decide_unpack _). vm_compute. exact I.
Defined.

(** X11. A seed that the title does not give is lost when the classifier
    runs again on the first label of its result, unless it is that first
    label. *)
Theorem classify_again_loses_seed `{L : Lower} title current_category genre description :
  current_category ∉ get_game_categories title "" genre description →
  hd "" (get_game_categories title current_category genre description)
  ≠ current_category →
  current_category
  ∉ get_game_categories title
      (hd "" (get_game_categories title current_category genre description))
      genre description.
Proof.
  intros Htitle Hprimary. rewrite elem_of_result. intros [Hx|[_ Hempty]].
  - apply mem_true, working_set_seed_iff in Hx as [Hx|[? _]]; [|done].
    apply Htitle, elem_of_result. left. by apply mem_true.
  - apply working_set_empty_iff in Hempty as [Hempty _].
    destruct (primary_least title current_category genre description) as [Hin _].
    rewrite Hempty in Hin. by apply empty_not_in_result in Hin.
Qed.

Lemma classify_again_loses_seed_witness :
  "rhythm" ∈ get_game_categories "Chess Master" "rhythm" "" ""
  ∧ "rhythm" ∉ get_game_categories "Chess Master"
                 (hd "" (get_game_categories "Chess Master" "rhythm" "" "")) "" "".
Proof.
  split; [apply (bool_decide_unpack _); vm_compute; exact I|].
  apply (classify_again_loses_seed "Chess Master" "rhythm" "" "");
    apply (bool_decide_unpack _); vm_compute; exact I.
Defined.

(** Classifying on the first label of a result, and again on the first
    label of what that gives, gives the same labels both times. *)
Lemma result_third_run `{L : Lower} title current_category genre description :
  let primary1 := hd "" (get_game_categories title current_category genre description) in
  let result2 := get_game_categories title primary1 genre description in
  get_game_categories title (hd "" result2) genre description = result2.
Proof.
  cbv zeta.
  destruct (primary_least title current_category genre description) as [Hin1 Hleast1].
  set (primary1 := hd "" (get_game_categories title current_category genre description)) in *.
  destruct (primary_least title primary1 genre description) as [Hin2 Hleast2].
  set (primary2 := hd "" (get_game_categories title primary1 genre description)) in *.
  pose proof (result_again_subset _ _ _ _ _ genre description Hin1) as Hsub.
  destruct (decide (primary1 ∈ get_game_categories title primary1 genre description))
    as [Hkept|Hlost].
  - assert (primary2 = primary1) as Heq.
    { apply (anti_symm String.le); [by apply Hleast2|apply Hleast1, (Hsub _ Hin2)]. }
    by rewrite Heq.
  - apply result_set_eq. intros x. split.
    + by apply result_again_subset.
    + intros Hx2. pose proof Hx2 as Hx.
      apply (elem_of_result title primary1) in Hx as [Hx|[_ Hempty]].
      * apply mem_true, working_set_seed_iff in Hx as [Hx|[-> _]]; [|done].
        apply elem_of_result. left. apply mem_true, working_set_seed_iff. by left.
      * apply working_set_empty_iff in Hempty as [Hempty _].
        rewrite Hempty in Hin1. by apply empty_not_in_result in Hin1.
Qed.

(** ** Updating one game *)

(** The labels the update computes for a game with these texts. *)
Lemma update_game_text `{L : Lower} (game : entry) title category :
  game !! "title" = Some (Str title) →
  get game "category" (Str "arcade") = Str category →
  let new_categories :=
    get_game_categories title category
      (text (get game "genre" (Str ""))) (text (get game "description" (Str ""))) in
  update_game game
  = inr (<["category" := Str (hd "" new_categories)]>
           (<["categories" := Strs new_categories]> game)).
Proof.
  intros Htitle Hcategory; cbv zeta. unfold update_game; cbv zeta.
  rewrite Htitle, Hcategory.
  pose proof (result_not_nil title category (text (get game "genre" (Str "")))
                (text (get game "description" (Str "")))) as Hnil.
  by destruct (get_game_categories _ _ _ _).
Qed.

(** X12. A game whose title is a text and whose category is a text or
    absent is updated without exception.  Its 'categories' are the labels of
    the classifier, its 'category' is the first and least of them, and every
    other key keeps its value. *)
Theorem update_game_succeeds `{L : Lower} (game : entry) title category :
  game !! "title" = Some (Str title) →
  get game "category" (Str "arcade") = Str category →
  ∃ game' new_categories primary,
    update_game game = inr game'
    ∧ new_categories
      = get_game_categories title category
          (text (get game "genre" (Str ""))) (text (get game "description" (Str "")))
    ∧ game' !! "categories" = Some (Strs new_categories)
    ∧ game' !! "category" = Some (Str primary)
    ∧ primary ∈ new_categories
    ∧ (∀ x, x ∈ new_categories → String.le primary x)
    ∧ ∀ key, key ≠ "category" → key ≠ "categories" → game' !! key = game !! key.
Proof.
  intros Htitle Hcategory. eexists _, _, _.
  split; [by apply update_game_text|]. split; [reflexivity|].
  split; [by rewrite lookup_insert_ne, lookup_insert_eq|].
  split; [by rewrite lookup_insert_eq|].
  split; [apply primary_least|]. split; [apply primary_least|].
  intros key Hne1 Hne2. by rewrite !lookup_insert_ne.
Qed.

Lemma update_game_succeeds_witness :
  let game : entry := {[ "title" := Str "Chess Master"; "plays" := Str "12" ]} in
  ∃ game' new_categories primary,
    update_game game = inr game'
    ∧ new_categories
      = get_game_categories "Chess Master" "arcade"
          (text (get game "genre" (Str ""))) (text (get game "description" (Str "")))
    ∧ game' !! "categories" = Some (Strs new_categories)
    ∧ game' !! "category" = Some (Str primary)
    ∧ primary ∈ new_categories
    ∧ (∀ x, x ∈ new_categories → String.le primary x)
    ∧ ∀ key, key ≠ "category" → key ≠ "categories" → game' !! key = game !! key.
Proof.
  intros game.
  apply (update_game_succeeds game "Chess Master" "arcade"); vm_compute; reflexivity.
Defined.


(** X14. A game without a category is classified with the seed 'arcade',
    which no rule removes: its labels have 'arcade'. *)
Theorem update_game_default_category `{L : Lower} (game game' : entry) :
  game !! "category" = None →
  update_game game = inr game' →
  ∃ new_categories,
    game' !! "categories" = Some (Strs new_categories) ∧ "arcade" ∈ new_categories.
Proof.
  intros Hcategory Hgame.
  assert (get game "category" (Str "arcade") = Str "arcade") as Hget
    by (unfold get; by rewrite Hcategory).
  destruct (game !! "title") as [[title|l]|] eqn:Htitle.
  - rewrite (update_game_text game title "arcade") in Hgame by done.
    injection Hgame as <-. eexists. split; [by rewrite lookup_insert_ne, lookup_insert_eq|].
    apply (working_set_result 0); [done..|]. by apply seed_elem_of.
  - unfold update_game in Hgame; cbv zeta in Hgame. by rewrite Htitle in Hgame.
  - unfold update_game in Hgame; cbv zeta in Hgame. by rewrite Htitle in Hgame.
Qed.

Lemma update_game_default_category_witness :
  ∃ new_categories,
    ({[ "title" := Str "Sudoku Garden"; "categories" := Strs ["arcade"];
        "category" := Str "arcade" ]} : entry) !! "categories"
    = Some (Strs new_categories)
    ∧ "arcade" ∈ new_categories.
Proof.
  apply (update_game_default_category {[ "title" := Str "Sudoku Garden" ]});
    vm_compute; reflexivity.
Defined.

Lemma insert_category_again (game : entry) (v w : value) :
  <["category" := v]> (<["categories" := w]>
     (<["category" := v]> (<["categories" := w]> game)))
  = <["category" := v]> (<["categories" := w]> game).
Proof.
  apply map_eq. intros key.
  destruct (decide (key = "category")) as [->|?]; [by rewrite !lookup_insert_eq|].
  rewrite !(lookup_insert_ne _ "category") by done.
  destruct (decide (key = "categories")) as [->|?]; [by rewrite !lookup_insert_eq|].
  by rewrite !lookup_insert_ne by done.
Qed.

(** X15. Updating an updated game once more can change it, a third update
    cannot: the update of a game that was updated twice returns it as it
    is. *)
Theorem update_game_twice_stable `{L : Lower} (game game1 game2 : entry) :
  update_game game = inr game1 →
  update_game game1 = inr game2 →
  update_game game2 = inr game2.
Proof.
  intros Hgame1 Hgame2.
  destruct (game !! "title") as [[title|l]|] eqn:Htitle;
    [|unfold update_game in Hgame1; cbv zeta in Hgame1; by rewrite Htitle in Hgame1..].
  destruct (get game "category" (Str "arcade")) as [category|l] eqn:Hcategory;
    [|unfold update_game in Hgame1; cbv zeta in Hgame1;
      by rewrite Htitle, Hcategory in Hgame1].
  rewrite (update_game_text game title category) in Hgame1 by done.
  injection Hgame1 as <-.
  set (genre := text (get game "genre" (Str ""))) in *.
  set (description := text (get game "description" (Str ""))) in *.
  set (result1 := get_game_categories title category genre description) in *.
  set (game1 := <["category" := Str (hd "" result1)]> (<["categories" := Strs result1]> game)) in *.
  rewrite (update_game_text game1 title (hd "" result1)) in Hgame2.
  2:{ unfold game1. by rewrite !lookup_insert_ne. }
  2:{ unfold game1, get. by rewrite lookup_insert_eq. }
  cbv zeta in Hgame2.
  change (get_game_categories title (hd "" result1) _ _)
    with (get_game_categories title (hd "" result1) genre description) in Hgame2.
  set (result2 := get_game_categories title (hd "" result1) genre description) in *.
  injection Hgame2 as <-.
  rewrite (update_game_text _ title (hd "" result2)).
  2:{ unfold game1. by rewrite !lookup_insert_ne. }
  2:{ unfold get. by rewrite lookup_insert_eq. }
  cbv zeta.
  change (get_game_categories title (hd "" result2) _ _)
    with (get_game_categories title (hd "" result2) genre description).
  assert (get_game_categories title (hd "" result2) genre description = result2) as ->
    by apply (result_third_run title category genre description).
  by rewrite insert_category_again.
Qed.

Lemma update_game_twice_stable_witness :
  let game2 : entry :=
    {[ "title" := Str "Chess Master"; "category" := Str "2-player";
       "categories" := Strs ["2-player"; "classic"; "strategy"] ]} in
  update_game game2 = inr game2.
Proof.
  apply (update_game_twice_stable
           {[ "title" := Str "Chess Master"; "category" := Str "rhythm" ]}
           {[ "title" := Str "Chess Master"; "category" := Str "2-player";
              "categories" := Strs ["2-player"; "classic"; "rhythm"; "strategy"] ]});
    vm_compute; reflexivity.
Defined.

(** ** Updating the catalog *)

Lemma update_each_inr `{L : Lower} (games games' : list entry) :
  update_each games = inr games'
  ↔ Forall2 (λ game game', update_game game = inr game') games games'.
Proof.
  revert games'. induction games as [|game games IH]; intros games'; cbn.
  - split; [intros [= <-]; constructor|]. by inversion 1.
  - split.
    + destruct (update_game game) as [e|game1] eqn:Hgame; [done|].
      destruct (update_each games) as [e|games1] eqn:Hgames; [done|].
      intros [= <-]. constructor; [done|]. by apply IH.
    + inversion 1 as [|? game1 ? games1 Hgame Hgames]; subst.
      apply IH in Hgames. by rewrite Hgame, Hgames.
Qed.

Lemma update_each_inl `{L : Lower} (games : list entry) e :
  update_each games = inl e
  ↔ ∃ before game after,
      games = before ++ game :: after
      ∧ Forall (λ game0, ∃ game0', update_game game0 = inr game0') before
      ∧ update_game game = inl e.
Proof.
  induction games as [|game games IH]; cbn.
  - split; [done|]. by intros ([|??] & ? & ? & ? & _).
  - split.
    + destruct (update_game game) as [e'|game1] eqn:Hgame.
      * intros [= <-]. by exists [], game, games.
      * destruct (update_each games) as [e'|games1] eqn:Hgames; [|done].
        intros [= <-]. destruct IH as [IH _].
        destruct IH as (before & game' & after & -> & Hbefore & Hraise); [done|].
        exists (game :: before), game', after. split; [done|].
        split; [|done]. constructor; [by exists game1|done].
    + intros ([|game0 before] & game' & after & Heq & Hbefore & Hraise); simplify_eq/=.
      * by rewrite Hraise.
      * apply Forall_cons in Hbefore as [[game1 Hgame] Hbefore]. rewrite Hgame.
        assert (update_each (before ++ game' :: after) = inl e) as ->; [|done].
        apply IH. by exists before, game', after.
Qed.

Lemma update_catalog_inr `{L : Lower} (data data' : catalog) :
  update_games_with_categories data = inr data'
  ↔ ∃ m games0 games1,
      meta data = Some m ∧ games data = Some games0
      ∧ Forall2 (λ game game', update_game game = inr game') games0 games1
      ∧ meta data' = Some (<["categories" := Strs all_categories]> m)
      ∧ games data' = Some games1.
Proof.
  unfold update_games_with_categories. destruct data as [[m|] [games0|]]; cbn.
  - destruct (update_each games0) as [e|games1] eqn:Heach.
    + split; [done|]. intros (? & ? & games1 & [= <-] & [= <-] & Hall%update_each_inr & _).
      congruence.
    + apply update_each_inr in Heach. split.
      * intros [= <-]. by exists m, games0, games1.
      * intros (? & ? & games2 & [= <-] & [= <-] & Hall%update_each_inr & Hmeta & Hgames).
        apply update_each_inr in Heach. destruct data'; cbn in *. congruence.
  - split; [done|]. by intros (? & ? & ? & _ & ? & _).
  - split; [done|]. by intros (? & ? & ? & ? & _).
  - split; [done|]. by intros (? & ? & ? & ? & _).
Qed.

(** X16. The catalog is written exactly when it has [meta] and [games] and
    every game updates.  What is written has the games updated one by one, in
    their order, and the vocabulary under 'categories' of [meta]. *)
Theorem update_catalog_writes `{L : Lower} (data data' : catalog) :
  update_games_with_categories data = inr data'
  ↔ ∃ m games0 games1,
      meta data = Some m ∧ games data = Some games0
      ∧ Forall2 (λ game game', update_game game = inr game') games0 games1
      ∧ meta data' = Some (<["categories" := Strs all_categories]> m)
      ∧ games data' = Some games1.
Proof. apply update_catalog_inr. Qed.

(** X17. The update of the catalog raises [KeyError] for a missing [meta],
    then for missing [games], and otherwise the exception of the first game
    that does not update; the games before it update. *)
Theorem update_catalog_raises `{L : Lower} (data : catalog) e :
  update_games_with_categories data = inl e
  ↔ (meta data = None ∧ e = KeyError "meta")
    ∨ (is_Some (meta data) ∧ games data = None ∧ e = KeyError "games")
    ∨ (is_Some (meta data)
       ∧ ∃ before game after,
           games data = Some (before ++ game :: after)
           ∧ Forall (λ game0, ∃ game0', update_game game0 = inr game0') before
           ∧ update_game game = inl e).
Proof.
  unfold update_games_with_categories. destruct data as [[m|] [games0|]]; cbn.
  - destruct (update_each games0) as [e'|games1] eqn:Heach.
    + split.
      * intros [= <-].
        apply update_each_inl in Heach as (before & game & after & -> & ? & ?).
        right; right. split; [done|]. by exists before, game, after.
      * intros [[? _]|[(_ & ? & _)|(_ & before & game & after & [= ->] & ? & ?)]]; [done..|].
        assert (update_each (before ++ game :: after) = inl e) as Hraise
          by (apply update_each_inl; by exists before, game, after).
        congruence.
    + split; [done|].
      intros [[? _]|[(_ & ? & _)|(_ & before & game & after & [= ->] & ? & ?)]]; [done..|].
      assert (update_each (before ++ game :: after) = inl e) as Hraise
        by (apply update_each_inl; by exists before, game, after).
      congruence.
  - split.
    + intros [= <-]. right; left. by split.
    + by intros [[? _]|[(_ & _ & ->)|(_ & ? & ? & ? & ? & _)]].
  - split.
    + intros [= <-]. by left.
    + intros [[_ ->]|[([? ?] & _)|([? ?] & _)]]; done.
  - split.
    + intros [= <-]. by left.
    + intros [[_ ->]|[([? ?] & _)|([? ?] & _)]]; done.
Qed.

(** The labels of the rules are in the vocabulary of [meta]. *)
Lemma rule_labels_all_categories x : x ∈ rule_labels → x ∈ all_categories.
Proof.
  intros Hx. apply among_true in Hx. apply among_true.
  unfold rule_labels, all_categories, among, existsb in *.
  repeat match type of Hx with
    | orb _ _ = true => apply orb_true_iff in Hx as [->|Hx]; [by rewrite ?orb_true_r|]
    end.
  done.
Qed.

(** X18. When every category of the loaded games is in the vocabulary, so is
    every label of every game that is written. *)
Theorem update_catalog_vocabulary `{L : Lower} (data data' : catalog) games0 games1 :
  update_games_with_categories data = inr data' →
  games data = Some games0 → games data' = Some games1 →
  (∀ game category,
     game ∈ games0 → game !! "category" = Some (Str category) →
     category ∈ all_categories) →
  ∀ game', game' ∈ games1 →
    ∃ new_categories,
      game' !! "categories" = Some (Strs new_categories)
      ∧ new_categories ⊆ all_categories.
Proof.
  intros (m & ? & ? & _ & Hgames0 & Hall & _ & Hgames1)%update_catalog_inr.
  intros ? ? Hvocabulary game' Hgame'; simplify_eq.
  apply list_elem_of_lookup in Hgame' as [i Hi].
  destruct (Forall2_lookup_r _ _ _ _ _ Hall Hi) as (game & Hgame & Hupdate).
  destruct (game !! "title") as [[title|l]|] eqn:Htitle;
    [|unfold update_game in Hupdate; cbv zeta in Hupdate; by rewrite Htitle in Hupdate..].
  destruct (get game "category" (Str "arcade")) as [category|l] eqn:Hcategory;
    [|unfold update_game in Hupdate; cbv zeta in Hupdate;
      by rewrite Htitle, Hcategory in Hupdate].
  rewrite (update_game_text game title category) in Hupdate by done.
  injection Hupdate as <-. eexists.
  split; [by rewrite lookup_insert_ne, lookup_insert_eq|].
  intros label [->|Hlabel]%result_vocabulary; [|by apply rule_labels_all_categories].
  unfold get in Hcategory. destruct (game !! "category") as [v|] eqn:Hv.
  - subst v. apply (Hvocabulary game); [|done]. by apply list_elem_of_lookup_2 in Hgame.
  - injection Hcategory as <-. by apply (bool_decide_unpack _).
Qed.

Lemma update_catalog_vocabulary_witness :
  Forall (λ game' : entry,
            ∃ new_categories,
              game' !! "categories" = Some (Strs new_categories)
              ∧ new_categories ⊆ all_categories)
    [ {[ "title" := Str "Gem Swap"; "category" := Str "arcade";
         "categories" := Strs ["arcade"; "puzzle"] ]} ].
Proof.
  apply Forall_forall.
  apply (update_catalog_vocabulary
           {| meta := Some ∅;
              games := Some [ {[ "title" := Str "Gem Swap"; "category" := Str "arcade" ]} ] |}
           {| meta := Some {[ "categories" := Strs all_categories ]};
              games := Some [ {[ "title" := Str "Gem Swap"; "category" := Str "arcade";
                                 "categories" := Strs ["arcade"; "puzzle"] ]} ] |}
           [ {[ "title" := Str "Gem Swap"; "category" := Str "arcade" ]} ]).
  - vm_compute. reflexivity.
  - reflexivity.
  - reflexivity.
  - intros game category ->%list_elem_of_singleton Hcategory.
    vm_compute in Hcategory. injection Hcategory as <-.
    apply (bool_decide_unpack _). vm_compute. exact I.
Defined.

(** ** The category distribution *)

Lemma count_category_lookup (counts : gmap string nat) category x :
  default 0 (count_category counts category !! x)
  = default 0 (counts !! x) + (if decide (x = category) then 1 else 0).
Proof.
  unfold count_category. destruct (decide (x = category)) as [->|Hne].
  - by rewrite lookup_insert_eq.
  - rewrite lookup_insert_ne by done. lia.
Qed.

Lemma count_category_is_Some (counts : gmap string nat) category x :
  is_Some (count_category counts category !! x) ↔ is_Some (counts !! x) ∨ x = category.
Proof.
  unfold count_category. destruct (decide (x = category)) as [->|Hne].
  - rewrite lookup_insert_eq. split; [by right|by eexists].
  - rewrite lookup_insert_ne by done. split; [by left|]. by intros [?|?].
Qed.

(** One game: a label of a duplicate-free list is counted once. *)
Lemma count_game (counts : gmap string nat) (categories : list string) x :
  NoDup categories →
  default 0 (fold_left count_category categories counts !! x)
  = default 0 (counts !! x) + (if decide (x ∈ categories) then 1 else 0)
  ∧ (is_Some (fold_left count_category categories counts !! x)
     ↔ is_Some (counts !! x) ∨ x ∈ categories).
Proof.
  revert counts. induction categories as [|category categories IH]; intros counts Hnodup; cbn.
  - split.
    + destruct (decide (x ∈ [])) as [Hin|_]; [|lia]. by apply elem_of_nil in Hin.
    + split; [by left|]. by intros [?|?%elem_of_nil].
  - apply NoDup_cons in Hnodup as [Hfresh Hnodup].
    destruct (IH (count_category counts category) Hnodup) as [Hcount Hsome].
    split.
    + rewrite Hcount, count_category_lookup.
      destruct (decide (x = category)) as [->|Hne].
      * rewrite decide_False by done. rewrite decide_True by by left. lia.
      * destruct (decide (x ∈ categories)) as [Hin|Hout].
        -- rewrite decide_True by by right. lia.
        -- rewrite decide_False; [lia|]. by intros [?|?]%elem_of_cons.
    + rewrite Hsome, count_category_is_Some, elem_of_cons. tauto.
Qed.

Lemma count_games (counts : gmap string nat) (games : list (list string)) x :
  Forall NoDup games →
  default 0
    (fold_left (λ counts categories, fold_left count_category categories counts)
       games counts !! x)
  = default 0 (counts !! x) + length (filter (λ categories, x ∈ categories) games)
  ∧ (is_Some
       (fold_left (λ counts categories, fold_left count_category categories counts)
          games counts !! x)
     ↔ is_Some (counts !! x) ∨ ∃ categories, categories ∈ games ∧ x ∈ categories).
Proof.
  revert counts.
  induction games as [|categories games IH]; intros counts Hnodup; cbn [fold_left].
  - rewrite filter_nil. split; [cbn; lia|].
    split; [by left|]. intros [?|(? & []%elem_of_nil & _)]. done.
  - apply Forall_cons in Hnodup as [Hcategories Hnodup].
    destruct (IH (fold_left count_category categories counts) Hnodup) as [Hcount Hsome].
    destruct (count_game counts categories x Hcategories) as [Hcount1 Hsome1].
    split.
    + rewrite Hcount, Hcount1, filter_cons.
      destruct (decide (x ∈ categories)); cbn [length]; lia.
    + rewrite Hsome, Hsome1. split.
      * intros [[?|?]|(l & ? & ?)]; [by left|right..].
        -- exists categories. split; [by left|done].
        -- exists l. split; [by right|done].
      * intros [?|(l & [->|?]%elem_of_cons & ?)]; [by left; left|by left; right|].
        right. by exists l.
Qed.

(** X19. The distribution has an entry for exactly the labels that some game
    carries, and the entry of a label is the number of games that carry it:
    the label lists of the classifier have no duplicates. *)
Theorem category_counts_games (games : list (list string)) x :
  Forall NoDup games →
  default 0 (category_counts games !! x)
  = length (filter (λ categories, x ∈ categories) games)
  ∧ (is_Some (category_counts games !! x)
     ↔ ∃ categories, categories ∈ games ∧ x ∈ categories).
Proof.
  intros Hnodup. unfold category_counts.
  destruct (count_games ∅ games x Hnodup) as [Hcount Hsome].
  split; [by rewrite Hcount, lookup_empty|].
  rewrite Hsome, lookup_empty. split; [by intros [[? ?]|?]|by right].
Qed.

Lemma category_counts_games_witness :
  let games := [ ["2-player"; "classic"; "strategy"]; ["arcade"; "classic"] ] in
  default 0 (category_counts games !! "classic")
  = length (filter (λ categories, "classic" ∈ categories) games)
  ∧ (is_Some (category_counts games !! "classic")
     ↔ ∃ categories, categories ∈ games ∧ "classic" ∈ categories).
Proof.
  intros games. apply (category_counts_games games "classic").
  apply (bool_decide_unpack _). vm_compute. exact I.
Defined.
